(** * A shallow embedding of [config.Parse] (package config, src/config.go)

    Go strings are byte strings; they are modelled as [String.string], one
    [ascii] per byte.  The environment is [os.LookupEnv], a partial map from
    names to values.  The external collaborators of [Parse] that are not
    part of this repository ([encoding/json] and the text layout of the
    [flag] package's [PrintDefaults]) are section variables; the grammar of
    the [flag] package's [FlagSet.Parse], on which the option surface
    depends, is written out. *)

From Stdlib Require Import Bool List Ascii String Arith Wf_nat ZArith Lia.
Import ListNotations.
Open Scope string_scope.

(** ** Byte classes and small string helpers *)

Definition is_upper (c : ascii) : bool :=
  (Nat.leb 65 (nat_of_ascii c)) && (Nat.leb (nat_of_ascii c) 90).

Definition is_digit (c : ascii) : bool :=
  (Nat.leb 48 (nat_of_ascii c)) && (Nat.leb (nat_of_ascii c) 57).

Definition is_underscore (c : ascii) : bool := Ascii.eqb c "_"%char.

(** [A-Z0-9_] *)
Definition is_name_char (c : ascii) : bool :=
  is_upper c || is_digit c || is_underscore c.

(** [A-Z0-9] *)
Definition is_last_char (c : ascii) : bool := is_upper c || is_digit c.

Fixpoint all_chars (p : ascii -> bool) (s : string) : bool :=
  match s with
  | EmptyString => true
  | String c s' => p c && all_chars p s'
  end.

(** Does the whole of [s] (no anchors needed) match [[A-Z][A-Z0-9_]*?[A-Z0-9]]?
    The lazy star does not change the language of an anchored match. *)
Fixpoint name_tail_ok (s : string) : bool :=
  (* [s] matches [[A-Z0-9_]*?[A-Z0-9]] *)
  match s with
  | EmptyString => false
  | String c EmptyString => is_last_char c
  | String c s' => is_name_char c && name_tail_ok s'
  end.

Definition name_ok (s : string) : bool :=
  match s with
  | EmptyString => false
  | String c s' => is_upper c && name_tail_ok s'
  end.

(** [envVarPrefixRegex.MatchString]:
    [regexp.MustCompile("\\A[A-Z][A-Z0-9_]*?[A-Z0-9]\\z")]. *)
Definition envVarPrefixRegex_MatchString (s : string) : bool := name_ok s.

(** [strings.HasPrefix], [strings.TrimPrefix], [strings.TrimSuffix]. *)
Definition HasPrefix (s pre : string) : bool :=
  String.eqb (substring 0 (length pre) s) pre.

Definition TrimPrefix (s pre : string) : string :=
  if HasPrefix s pre then substring (length pre) (length s - length pre) s else s.

Definition HasSuffix (s suf : string) : bool :=
  (Nat.leb (length suf) (length s)) &&
  String.eqb (substring (length s - length suf) (length suf) s) suf.

Definition TrimSuffix (s suf : string) : string :=
  if HasSuffix s suf then substring 0 (length s - length suf) s else s.

(** Removing the bytes satisfying [p] at the left and at the right. *)
Fixpoint TrimLeftFunc (p : ascii -> bool) (s : string) : string :=
  match s with
  | EmptyString => EmptyString
  | String c s' => if p c then TrimLeftFunc p s' else s
  end.

Definition rev_string (s : string) : string :=
  string_of_list_ascii (List.rev (list_ascii_of_string s)).

Definition TrimRightFunc (p : ascii -> bool) (s : string) : string :=
  rev_string (TrimLeftFunc p (rev_string s)).

(** [strings.Trim(s, "_")]. *)
Definition Trim_underscore (s : string) : string :=
  TrimRightFunc is_underscore (TrimLeftFunc is_underscore s).

(** [strings.TrimSpace]: [TrimFunc(s, unicode.IsSpace)] (its ASCII fast
    path gives the same result).  [unicode.IsSpace] holds for
    ['\t' '\n' '\v' '\f' '\r' ' '], U+0085, U+00A0, U+1680,
    U+2000 to U+200A, U+2028, U+2029, U+202F, U+205F and U+3000; the runes
    are listed here by their UTF-8 bytes.  [TrimLeftFunc] decodes runes from
    the start and stops at the first rune (or invalid byte) that is not a
    space; [TrimRightFunc] decodes the last rune with
    [utf8.DecodeLastRuneInString], which finds a space rune exactly when the
    text ends with its encoding (the first byte of an encoding is never a
    continuation byte, so no two encodings overlap at the end). *)
Definition bytes_of (l : list nat) : string := string_of_list_ascii (map ascii_of_nat l).

Definition space_runes : list string :=
  map bytes_of
    ([[9]; [10]; [11]; [12]; [13]; [32]; [194; 133]; [194; 160]; [225; 154; 128]]
     ++ map (fun k => [226; 128; 128 + k]) (seq 0 11)
     ++ [[226; 128; 168]; [226; 128; 169]; [226; 128; 175]; [226; 129; 159];
         [227; 128; 128]])%list.

(** The text after a leading space rune, if [s] starts with one. *)
Definition space_prefix (s : string) : option string :=
  match find (HasPrefix s) space_runes with
  | Some e => Some (substring (length e) (length s - length e) s)
  | None => None
  end.

(** The text before a trailing space rune, if [s] ends with one. *)
Definition space_suffix (s : string) : option string :=
  match find (HasSuffix s) space_runes with
  | Some e => Some (substring 0 (length s - length e) s)
  | None => None
  end.

(** Each step removes at least one byte, so [length s] steps suffice. *)
Fixpoint trim_space_left (fuel : nat) (s : string) : string :=
  match fuel with
  | O => s
  | S fuel' => match space_prefix s with
               | Some r => trim_space_left fuel' r
               | None => s
               end
  end.

Fixpoint trim_space_right (fuel : nat) (s : string) : string :=
  match fuel with
  | O => s
  | S fuel' => match space_suffix s with
               | Some r => trim_space_right fuel' r
               | None => s
               end
  end.

Definition TrimSpace (s : string) : string :=
  let l := trim_space_left (length s) s in trim_space_right (length l) l.

(** [strings.ToUpper] on ASCII bytes: [a-z] to [A-Z].  [Parse] applies it
    only to prefixes already accepted by [envVarPrefixRegex], which are
    ASCII. *)
Definition to_upper_char (c : ascii) : ascii :=
  let n := nat_of_ascii c in
  if Nat.leb 97 n && Nat.leb n 122 then ascii_of_nat (n - 32) else c.

Fixpoint ToUpper (s : string) : string :=
  match s with
  | EmptyString => EmptyString
  | String c s' => String (to_upper_char c) (ToUpper s')
  end.

(** ** Placeholder substitution

    [placeHolderRegex] is
    [(?P<PLACEHOLDER>\$\{[A-Z][A-Z0-9_]*?[A-Z0-9]\})].  The bytes between
    the braces are all in [[A-Z0-9_]], so a match starting at a given
    position must end at the first ['}'] after it: [placeholder_at s]
    returns the matched group and the rest of the input when a match starts
    at the first byte of [s]. *)
Fixpoint span_name (s : string) : string * string :=
  match s with
  | EmptyString => (EmptyString, EmptyString)
  | String c s' =>
      if is_name_char c then
        let (n, r) := span_name s' in (String c n, r)
      else (EmptyString, s)
  end.

Definition placeholder_at (s : string) : option (string * string) :=
  match s with
  | String c0 (String c1 s') =>
      if Ascii.eqb c0 "$" && Ascii.eqb c1 "{" then
        let (n, r) := span_name s' in
        match r with
        | String c2 r' =>
            if Ascii.eqb c2 "}" && name_ok n then Some ("${" ++ n ++ "}", r')
            else None
        | EmptyString => None
        end
      else None
  | _ => None
  end.

(** [regexp.ReplaceAllStringFunc]: leftmost match, replaced by [repl] of
    the matched text, searching again after the end of the match; the
    replacement text is never searched.  [fuel] bounds the number of
    steps, each of which consumes at least one byte. *)
Fixpoint replace_all_fuel (fuel : nat) (repl : string -> string)
    (s : string) : string :=
  match fuel with
  | O => s
  | S fuel' =>
      match s with
      | EmptyString => EmptyString
      | String c s' =>
          match placeholder_at s with
          | Some (group, rest) => repl group ++ replace_all_fuel fuel' repl rest
          | None => String c (replace_all_fuel fuel' repl s')
          end
      end
  end.

Definition ReplaceAllStringFunc (repl : string -> string) (s : string) : string :=
  replace_all_fuel (length s) repl s.

(** No match of [placeHolderRegex] starts at any byte of [s]. *)
Fixpoint placeholder_free (s : string) : bool :=
  match s with
  | EmptyString => true
  | String _ s' =>
      match placeholder_at s with
      | Some _ => false
      | None => placeholder_free s'
      end
  end.

(** [sanitizePlaceholderToken]. *)
Definition sanitizePlaceholderToken (envvar : string) : string :=
  TrimSuffix (TrimPrefix envvar "${") "}".

(** ** Go values, the heap and errors *)

#[local] Set Warnings "-register-all".

(** The byte ['\n'] ([fmt.Sprintln()] and [fmt.Fprintln]). *)
Definition nl : string := String (ascii_of_nat 10) EmptyString.

(** Values an [interface{}] may hold, as far as [Parse] sees them: the
    nil interface, a pointer into the caller's heap, or a value held
    directly (a map or a channel is a reference the decoder cannot set). *)
Inductive gvalue : Type :=
| GNil
| GPtr (l : nat)
| GInt (z : Z)
| GBool (b : bool)
| GStr (s : string)
| GChan
| GMap (kvs : list (string * gvalue))
| GStruct (fields : list (string * gvalue)).

(** The caller-owned memory that pointers refer to. *)
Definition heap : Type := nat -> option gvalue.

(** Go [error] values: [flag.ErrHelp] (compared by identity in [Parse]) and
    errors built from a message ([fmt.Errorf], [errors.New], and those of
    [encoding/json]). *)
Inductive error : Type :=
| ErrHelp
| Errorf (msg : string).

Definition Error (e : error) : string :=
  match e with
  | ErrHelp => "flag: help requested"
  | Errorf msg => msg
  end.

(** [ReleaseInfo]. *)
Record ReleaseInfo : Type := mkReleaseInfo {
  GitCommit : string;
  BuildTimestamp : string;
  ReleaseVersion : string;
  GoVersion : string
}.

(** ** The [flag] package: [FlagSet.Parse] with [ContinueOnError] *)

(** A flag as [PrintDefaults] sees it. *)
Record Flag : Type := mkFlag {
  flag_Name : string;
  flag_Usage : string;
  flag_DefValue : string;
  flag_IsBool : bool
}.

(** The two flags [Parse] registers: [fs.StringVar(&configJSON, "config", ...)]
    and [fs.BoolVar(&version, "version", ...)]. *)
Inductive FlagId : Type := FConfig | FVersion.

(** [f.formal[name]]. *)
Definition formal (name : string) : option FlagId :=
  if String.eqb name "config" then Some FConfig
  else if String.eqb name "version" then Some FVersion
  else None.

(** The variables the flags are bound to, [f.actual] (names set on the
    command line) and the output buffer [fs.SetOutput(&output)]. *)
Record FlagSet : Type := mkFlagSet {
  configJSON : string;
  version : bool;
  actual : list string;
  output : string
}.

Definition set_configJSON (fs : FlagSet) (v : string) (name : string) : FlagSet :=
  mkFlagSet v (version fs) (name :: actual fs) (output fs).

Definition set_version (fs : FlagSet) (b : bool) (name : string) : FlagSet :=
  mkFlagSet (configJSON fs) b (name :: actual fs) (output fs).

Definition write_output (fs : FlagSet) (s : string) : FlagSet :=
  mkFlagSet (configJSON fs) (version fs) (actual fs) (output fs ++ s).

(** [strconv.ParseBool]. *)
Definition ParseBool (s : string) : option bool :=
  if existsb (String.eqb s) ["1"; "t"; "T"; "TRUE"; "true"; "True"] then Some true
  else if existsb (String.eqb s) ["0"; "f"; "F"; "FALSE"; "false"; "False"] then Some false
  else None.

(** The double quote byte. *)
Definition dq : string := String (ascii_of_nat 34) EmptyString.

Definition hex_digit (n : nat) : ascii :=
  if Nat.ltb n 10 then ascii_of_nat (48 + n) else ascii_of_nat (87 + n).

(** [w] lowercase hexadecimal digits of [n]. *)
Fixpoint hex_fixed (w n : nat) : string :=
  match w with
  | O => EmptyString
  | S w' => hex_fixed w' (n / 16) ++ String (hex_digit (n mod 16)) EmptyString
  end.

Definition in_range (lo hi : nat) (c : ascii) : bool :=
  Nat.leb lo (nat_of_ascii c) && Nat.leb (nat_of_ascii c) hi.

(** [utf8.DecodeRuneInString] on a non-empty text: the rune and its width,
    or [None] for [(RuneError, 1)] (an invalid or truncated encoding). *)
Definition DecodeRune (s : string) : option (nat * nat) :=
  match s with
  | EmptyString => None
  | String b0 s1 =>
      let n0 := nat_of_ascii b0 in
      if Nat.ltb n0 128 then Some (n0, 1)
      else if Nat.ltb n0 194 then None
      else if Nat.ltb n0 224 then
        match s1 with
        | String b1 _ =>
            if in_range 128 191 b1
            then Some ((n0 - 192) * 64 + (nat_of_ascii b1 - 128), 2) else None
        | EmptyString => None
        end
      else if Nat.ltb n0 240 then
        let lo := if Nat.eqb n0 224 then 160 else 128 in
        let hi := if Nat.eqb n0 237 then 159 else 191 in
        match s1 with
        | String b1 (String b2 _) =>
            if in_range lo hi b1 && in_range 128 191 b2
            then Some ((n0 - 224) * 4096 + (nat_of_ascii b1 - 128) * 64
                       + (nat_of_ascii b2 - 128), 3)
            else None
        | _ => None
        end
      else if Nat.ltb n0 245 then
        let lo := if Nat.eqb n0 240 then 144 else 128 in
        let hi := if Nat.eqb n0 244 then 143 else 191 in
        match s1 with
        | String b1 (String b2 (String b3 _)) =>
            if in_range lo hi b1 && in_range 128 191 b2 && in_range 128 191 b3
            then Some ((n0 - 240) * 262144 + (nat_of_ascii b1 - 128) * 4096
                       + (nat_of_ascii b2 - 128) * 64 + (nat_of_ascii b3 - 128), 4)
            else None
        | _ => None
        end
      else None
  end.

(** [strconv.IsPrint].  Up to U+00FF this is the rule of [strconv]: U+0020
    to U+007E, and U+00A1 to U+00FF except U+00AD.  Above U+00FF the answer
    comes from the Unicode category tables of the Go release, which are not
    written out: those runes are taken as printable. *)
Definition IsPrint (r : nat) : bool :=
  if Nat.leb r 255 then
    (Nat.leb 32 r && Nat.leb r 126) || (Nat.leb 161 r && negb (Nat.eqb r 173))
  else true.

(** [appendEscapedRune] with the double quote, [ASCIIonly] and
    [graphicOnly] false; [enc] is the UTF-8 encoding of [r]. *)
Definition escape_rune (r : nat) (enc : string) : string :=
  if Nat.eqb r 34 then "\" ++ dq
  else if Nat.eqb r 92 then "\\"
  else if IsPrint r then enc
  else if Nat.eqb r 7 then "\a"
  else if Nat.eqb r 8 then "\b"
  else if Nat.eqb r 12 then "\f"
  else if Nat.eqb r 10 then "\n"
  else if Nat.eqb r 13 then "\r"
  else if Nat.eqb r 9 then "\t"
  else if Nat.eqb r 11 then "\v"
  else if Nat.ltb r 32 || Nat.eqb r 127 then "\x" ++ hex_fixed 2 r
  else if Nat.ltb r 65536 then "\u" ++ hex_fixed 4 r
  else "\U" ++ hex_fixed 8 r.

(** The loop of [appendQuotedWith]: rune by rune; a byte that does not
    start a valid encoding is written as [\xHH].  Each step consumes at
    least one byte. *)
Fixpoint quote_runes (fuel : nat) (s : string) : string :=
  match fuel with
  | O => EmptyString
  | S fuel' =>
      match s with
      | EmptyString => EmptyString
      | String b0 s1 =>
          match DecodeRune s with
          | Some (r, w) =>
              escape_rune r (substring 0 w s)
              ++ quote_runes fuel' (substring w (length s - w) s)
          | None => "\x" ++ hex_fixed 2 (nat_of_ascii b0) ++ quote_runes fuel' s1
          end
      end
  end.

(** [strconv.Quote], the [%q] verb of [fmt] on a string. *)
Definition Quote (s : string) : string := dq ++ quote_runes (length s) s ++ dq.

(** [f.failf]: the message is printed with [fmt.Fprintln], then [f.usage()]
    prints [usage], and the message is returned as the error. *)
Definition failf (usage : string) (fs : FlagSet) (msg : string)
    : FlagSet * option error :=
  (write_output fs (msg ++ nl ++ usage), Some (Errorf msg)).

(** The split of a flag name at the first ['='] after its first byte
    ([for i := 1; i < len(name); i++ { if name[i] == '=' ...]). *)
Fixpoint break_at_eq (s : string) : option (string * string) :=
  match s with
  | EmptyString => None
  | String c s' =>
      if Ascii.eqb c "=" then Some (EmptyString, s')
      else match break_at_eq s' with
           | Some (a, b) => Some (String c a, b)
           | None => None
           end
  end.

Definition split_value (name : string) : string * bool * string :=
  match name with
  | EmptyString => (name, false, EmptyString)
  | String c s' =>
      match break_at_eq s' with
      | Some (a, b) => (String c a, true, b)
      | None => (name, false, EmptyString)
      end
  end.

(** [FlagSet.Parse]: [parseOne] repeated while it sees a flag.  [usage] is
    the text written by [f.usage()]. *)
Fixpoint flag_parse (usage : string) (fs : FlagSet) (args : list string)
    : FlagSet * option error :=
  match args with
  | [] => (fs, None)
  | s :: rest =>
      match s with
      | String c0 (String c1 s1) =>
          if negb (Ascii.eqb c0 "-") then
            (* a non-flag argument stops the parsing *)
            (fs, None)
          else if Ascii.eqb c1 "-" && String.eqb s1 "" then
            (* "--" terminates the flags *)
            (fs, None)
          else
            let name := if Ascii.eqb c1 "-" then s1 else String c1 s1 in
            match name with
            | EmptyString => failf usage fs ("bad flag syntax: " ++ s)
            | String n0 _ =>
                if Ascii.eqb n0 "-" || Ascii.eqb n0 "=" then
                  failf usage fs ("bad flag syntax: " ++ s)
                else
                  let '(name, hasValue, value) := split_value name in
                  match formal name with
                  | None =>
                      if String.eqb name "help" || String.eqb name "h" then
                        (write_output fs usage, Some ErrHelp)
                      else failf usage fs ("flag provided but not defined: -" ++ name)
                  | Some FVersion =>
                      if hasValue then
                        match ParseBool value with
                        | Some b => flag_parse usage (set_version fs b name) rest
                        | None =>
                            failf usage fs ("invalid boolean value " ++ Quote value
                                            ++ " for -" ++ name ++ ": parse error")
                        end
                      else flag_parse usage (set_version fs true name) rest
                  | Some FConfig =>
                      if hasValue then
                        flag_parse usage (set_configJSON fs value name) rest
                      else
                        match rest with
                        | v :: rest' => flag_parse usage (set_configJSON fs v name) rest'
                        | [] => failf usage fs ("flag needs an argument: -" ++ name)
                        end
                  end
            end
      | _ => (* an argument shorter than two bytes stops the parsing *) (fs, None)
      end
  end.

(** ** [Parse] *)

(** [fmt.Errorf("environment variable prefix [%v] must start with a letter
    then letters or underscores", envVarPrefix)]. *)
Definition prefix_error_message (envVarPrefix : string) : string :=
  "environment variable prefix [" ++ envVarPrefix
  ++ "] must start with a letter then letters or underscores".

(** [strings.Trim(strings.ToUpper(envVarPrefix), "_") + "_"]. *)
Definition normalize_prefix (envVarPrefix : string) : string :=
  Trim_underscore (ToUpper envVarPrefix) ++ "_".

(** [EnvWithPrefix]: [getEnvKey] and [getEnv], over the environment
    [lookupEnv] ([os.LookupEnv]). *)
Definition getEnvKey (prefix key : string) : string := prefix ++ key.

Definition getEnv (lookupEnv : string -> option string)
    (prefix key defVal : string) : string :=
  match lookupEnv (getEnvKey prefix key) with
  | Some val => val
  | None => defVal
  end.

(** The usage string of the [config] flag. *)
Definition config_usage (prefix confRef : string) : string :=
  "JSON string describing the configuration options, JSON values can be placeholders for environment variables that start with '"
  ++ prefix ++ "' e.g '${DOMAIN}' is replaced with the value of environment variable '"
  ++ getEnvKey prefix "DOMAIN" ++ "', example: " ++ confRef ++ ".".

(** The flags of the flag set, in the lexical order [VisitAll] uses. *)
Definition registered_flags (prefix confRef configDefault : string) : list Flag :=
  [ mkFlag "config" (config_usage prefix confRef) configDefault false;
    mkFlag "version" "Prints the version and exits" "false" true ].

(** The flag set right after [fs.StringVar] and [fs.BoolVar]. *)
Definition initial_flagset (lookupEnv : string -> option string) (prefix : string)
    : FlagSet :=
  mkFlagSet (getEnv lookupEnv prefix "CONFIG" "{}") false [] EmptyString.

(** The release text of the version path; a nil [info] is replaced by
    [&ReleaseInfo{}]. *)
Definition release_text (info : option ReleaseInfo) : string :=
  let info := match info with Some i => i | None => mkReleaseInfo "" "" "" "" end in
  "Release: " ++ ReleaseVersion info ++ nl
  ++ "Commit: " ++ GitCommit info ++ nl
  ++ "Build Time: " ++ BuildTimestamp info ++ nl
  ++ "Built with: " ++ GoVersion info ++ nl.

(** The placeholder substitution applied to the configuration string. *)
Definition substitute (lookupEnv : string -> option string) (prefix configJSON : string)
    : string :=
  ReplaceAllStringFunc
    (fun group => getEnv lookupEnv prefix (sanitizePlaceholderToken group) "")
    configJSON.

Section ParseDef.

(** [json.MarshalIndent(v, prefix, indent)]: the bytes, or an error. *)
Variable json_MarshalIndent : gvalue -> heap -> string -> string -> string + error.

(** [json.Unmarshal(data, v)]: writes through the pointers of [v] into the
    heap; on a type mismatch it may have written part of the value before it
    reports the error. *)
Variable json_Unmarshal : string -> gvalue -> heap -> heap * option error.

(** [f.PrintDefaults()]: the text layout of the flags. *)
Variable PrintDefaults : list Flag -> string.

(** [f.defaultUsage()] of a flag set with an empty name. *)
Definition usage_text (prefix confRef configDefault : string) : string :=
  "Usage:" ++ nl ++ PrintDefaults (registered_flags prefix confRef configDefault).

(** [Parse(envVarPrefix, description, info, conf)], with the environment
    [lookupEnv], the command line [args] ([os.Args[1:]]) and the heap [h]
    the pointers in [conf] refer to; the result is the returned string, the
    returned error ([None] for nil) and the heap afterwards. *)
Definition Parse (lookupEnv : string -> option string) (args : list string)
    (envVarPrefix description : string) (info : option ReleaseInfo)
    (conf : gvalue) (h : heap) : string * option error * heap :=
  if negb (envVarPrefixRegex_MatchString envVarPrefix) then
    ("", Some (Errorf (prefix_error_message envVarPrefix)), h)
  else
    let envVarPrefix := normalize_prefix envVarPrefix in
    match json_MarshalIndent conf h "  " "  " with
    | inr err => ("", Some err, h)
    | inl confRef =>
        let fs0 := initial_flagset lookupEnv envVarPrefix in
        let usage := usage_text envVarPrefix confRef (configJSON fs0) in
        match flag_parse usage fs0 args with
        | (fs, Some ErrHelp) => (output fs, None, h)
        | (fs, Some err) => (output fs, Some err, h)
        | (fs, None) =>
            if version fs then (release_text info, None, h)
            else
              let configJSON := substitute lookupEnv envVarPrefix (configJSON fs) in
              match conf with
              | GNil => (output fs, None, h)
              | _ =>
                  match json_Unmarshal (TrimSpace configJSON) conf h with
                  | (h', Some err) => ("", Some err, h')
                  | (h', None) => (output fs, None, h')
                  end
              end
        end
    end.

End ParseDef.

(** ** Concrete instances for evaluation

    Stand-ins for the external collaborators, used to evaluate [Parse] on
    the inputs of the repository's tests; every theorem below holds for all
    collaborators.  The encoder rejects a channel with the message of
    [encoding/json]; the decoder accepts only a pointer, as [json.Unmarshal]
    does, and leaves the heap as it is. *)
Definition demo_MarshalIndent (v : gvalue) (h : heap) (prefix indent : string)
    : string + error :=
  match v with
  | GChan => inr (Errorf "json: unsupported type: chan int")
  | GNil => inl "null"
  | _ => inl "{}"
  end.

Definition demo_Unmarshal (data : string) (v : gvalue) (h : heap)
    : heap * option error :=
  match v with
  | GPtr _ => (h, None)
  | GNil => (h, Some (Errorf "json: Unmarshal(nil)"))
  | _ => (h, Some (Errorf "json: Unmarshal(non-pointer map[string]interface {})"))
  end.

Definition demo_PrintDefaults (flags : list Flag) : string :=
  String.concat "" (map (fun f => "  -" ++ flag_Name f ++ nl) flags).

Definition empty_heap : heap := fun _ => None.

(** The environment of [TestCliConfig]: [TEST_NAME=Bob]. *)
Definition env_test (k : string) : option string :=
  if String.eqb k "TEST_NAME" then Some "Bob" else None.

(** The [-c] argument of [TestCliConfig]. *)
Definition test_config_arg : string :=
  "{" ++ dq ++ "id" ++ dq ++ ":1," ++ dq ++ "name" ++ dq ++ ":" ++ dq ++ "${NAME}"
  ++ dq ++ "," ++ dq ++ "online" ++ dq ++ ":true}".

(** An environment where a value looks like a placeholder:
    [TEST_NAME=${OTHER}] and [TEST_OTHER=zz]. *)
Definition env_chain (k : string) : option string :=
  if String.eqb k "TEST_NAME" then Some "${OTHER}"
  else if String.eqb k "TEST_OTHER" then Some "zz"
  else None.

(** An environment with [TEST_CONFIG=ENV]. *)
Definition env_cfg (k : string) : option string :=
  if String.eqb k "TEST_CONFIG" then Some "ENV" else None.

Definition demo_Parse := Parse demo_MarshalIndent demo_Unmarshal demo_PrintDefaults.

Example parse_empty_prefix :
  demo_Parse env_test [] "" "" None GNil empty_heap
  = ("", Some (Errorf "environment variable prefix [] must start with a letter then letters or underscores"), empty_heap).
Proof. reflexivity. Qed.

Example parse_chan :
  demo_Parse env_test [] "TEST" "" None GChan empty_heap
  = ("", Some (Errorf "json: unsupported type: chan int"), empty_heap).
Proof. reflexivity. Qed.

Example parse_help :
  demo_Parse env_test ["-h"] "TEST" "" None GNil empty_heap
  = ("Usage:" ++ nl ++ "  -config" ++ nl ++ "  -version" ++ nl, None, empty_heap).
Proof. reflexivity. Qed.

Example parse_version :
  demo_Parse env_test ["--version"] "TEST" "" None (GPtr 0) empty_heap
  = ("Release: " ++ nl ++ "Commit: " ++ nl ++ "Build Time: " ++ nl ++ "Built with: " ++ nl, None, empty_heap).
Proof. reflexivity. Qed.

Example substitute_test :
  substitute env_test "TEST_" test_config_arg
  = "{" ++ dq ++ "id" ++ dq ++ ":1," ++ dq ++ "name" ++ dq ++ ":" ++ dq ++ "Bob"
    ++ dq ++ "," ++ dq ++ "online" ++ dq ++ ":true}".
Proof. reflexivity. Qed.

(** * Properties of the flag parser *)

Lemma formal_config (name : string) : formal name = Some FConfig -> name = "config".
Proof.
  unfold formal. destruct (String.eqb_spec name "config"); [auto|].
  destruct (String.eqb name "version"); discriminate.
Qed.

Lemma formal_version (name : string) : formal name = Some FVersion -> name = "version".
Proof.
  unfold formal. destruct (String.eqb name "config"); [discriminate|].
  destruct (String.eqb_spec name "version"); [auto|discriminate].
Qed.

Lemma failf_error (usage : string) (fs fs' : FlagSet) (msg : string) :
  failf usage fs msg <> (fs', None).
Proof. unfold failf. congruence. Qed.

(** A successful parse writes nothing to the output, does not depend on the
    usage text, and only adds names to [actual]. *)
Lemma flag_parse_ok (args : list string) :
  forall usage fs fs',
    flag_parse usage fs args = (fs', None) ->
    output fs' = output fs
    /\ (forall usage', flag_parse usage' fs args = (fs', None))
    /\ (forall x, In x (actual fs) -> In x (actual fs')).
Proof.
  induction args as [args IH] using (well_founded_induction
    (well_founded_ltof _ (@List.length string))).
  intros usage fs fs' H.
  destruct args as [|s rest]; simpl in H.
  { inversion H; subst. repeat split; auto. }
  destruct s as [|c0 [|c1 s1]]; try (inversion H; subst; repeat split; auto; fail).
  destruct (negb (Ascii.eqb c0 "-")) eqn:E0.
  { inversion H; subst. repeat split; auto. intro u'. simpl. now rewrite E0. }
  destruct (Ascii.eqb c1 "-" && String.eqb s1 "") eqn:E1.
  { inversion H; subst. repeat split; auto. intro u'. simpl. now rewrite E0, E1. }
  set (nm := if Ascii.eqb c1 "-" then s1 else String c1 s1) in H.
  destruct nm as [|n0 nrest] eqn:Enm; [now apply failf_error in H|].
  destruct (Ascii.eqb n0 "-" || Ascii.eqb n0 "=") eqn:E2; [now apply failf_error in H|].
  destruct (split_value (String n0 nrest)) as [[name hasValue] value] eqn:Esplit.
  destruct (formal name) as [[|]|] eqn:Eformal.
  - (* config *)
    destruct hasValue.
    + destruct (IH rest ltac:(unfold ltof; simpl; lia) _ _ _ H) as (Ho & Hu & Ha).
      repeat split.
      * exact Ho.
      * intro u'. simpl. rewrite E0, E1. fold nm. rewrite Enm, E2, Esplit, Eformal. apply Hu.
      * intros x Hx. apply Ha. simpl. auto.
    + destruct rest as [|v rest']; [now apply failf_error in H|].
      destruct (IH rest' ltac:(unfold ltof; simpl; lia) _ _ _ H) as (Ho & Hu & Ha).
      repeat split.
      * exact Ho.
      * intro u'. simpl. rewrite E0, E1. fold nm. rewrite Enm, E2, Esplit, Eformal. apply Hu.
      * intros x Hx. apply Ha. simpl. auto.
  - (* version *)
    destruct hasValue.
    + destruct (ParseBool value) as [b|] eqn:Eb; [|now apply failf_error in H].
      destruct (IH rest ltac:(unfold ltof; simpl; lia) _ _ _ H) as (Ho & Hu & Ha).
      repeat split.
      * exact Ho.
      * intro u'. simpl. rewrite E0, E1. fold nm. rewrite Enm, E2, Esplit, Eformal, Eb. apply Hu.
      * intros x Hx. apply Ha. simpl. auto.
    + destruct (IH rest ltac:(unfold ltof; simpl; lia) _ _ _ H) as (Ho & Hu & Ha).
      repeat split.
      * exact Ho.
      * intro u'. simpl. rewrite E0, E1. fold nm. rewrite Enm, E2, Esplit, Eformal. apply Hu.
      * intros x Hx. apply Ha. simpl. auto.
  - destruct (String.eqb name "help" || String.eqb name "h"); [discriminate|].
    now apply failf_error in H.
Qed.

(** Case analysis of one step of [flag_parse], in a hypothesis [H] and the
    goal at once (the scrutinees do not depend on the flag set). *)
Ltac split_flag_parse H :=
  simpl in H |- *;
  repeat match type of H with
  | context [match ?x with _ => _ end] =>
      lazymatch x with
      | flag_parse _ _ _ => fail
      | _ => destruct x eqn:?; simpl in H |- *
      end
  end.

Ltac wf_args_induction args IH :=
  induction args as [args IH] using (well_founded_induction
    (well_founded_ltof _ (@List.length string))).

Lemma flag_parse_config_default (args : list string) :
  forall usage fs fs',
    flag_parse usage fs args = (fs', None) ->
    ~ In "config" (actual fs') ->
    configJSON fs' = configJSON fs.
Proof.
  wf_args_induction args IH.
  intros usage fs fs' H Hnot.
  destruct args as [|s rest]; [simpl in H; congruence|].
  split_flag_parse H; subst;
  lazymatch type of H with
  | failf _ _ _ = _ => exfalso; exact (failf_error _ _ _ _ H)
  | (_, _) = _ => congruence
  | flag_parse _ (set_configJSON _ _ ?n) _ = _ =>
      exfalso; apply Hnot;
      apply (proj2 (proj2 (flag_parse_ok _ _ _ _ H)));
      match goal with E : formal n = Some FConfig |- _ => rewrite (formal_config _ E) end;
      simpl; auto
  | flag_parse _ (set_version _ _ _) _ = _ =>
      refine (IH _ _ _ _ _ H Hnot); unfold ltof; simpl; lia
  end.
Qed.

Lemma flag_parse_config_explicit (args : list string) :
  forall usage fs fs' d,
    flag_parse usage fs args = (fs', None) ->
    In "config" (actual fs') ->
    ~ In "config" (actual fs) ->
    flag_parse usage (mkFlagSet d (version fs) (actual fs) (output fs)) args = (fs', None).
Proof.
  wf_args_induction args IH.
  intros usage fs fs' d H Hin Hnot.
  destruct args as [|s rest]; [simpl in H; inversion H; subst; contradiction|].
  split_flag_parse H; subst;
  lazymatch type of H with
  | failf _ _ _ = _ => exfalso; exact (failf_error _ _ _ _ H)
  | (_, _) = _ => inversion H; subst; contradiction
  | flag_parse _ (set_configJSON _ _ _) _ = _ => exact H
  | flag_parse _ (set_version _ ?b ?n) _ = _ =>
      refine (IH _ _ _ (set_version fs b n) _ d H Hin _);
      [unfold ltof; simpl; lia|];
      match goal with E : formal n = Some FVersion |- _ => rewrite (formal_version _ E) end;
      simpl; intros [Hc|Hc]; [discriminate|contradiction]
  end.
Qed.

(** * String lemmas *)

Lemma str_app_nil_r (a : string) : a ++ "" = a.
Proof. induction a; simpl; congruence. Qed.

Lemma str_app_assoc (a b c : string) : (a ++ b) ++ c = a ++ (b ++ c).
Proof. induction a; simpl; congruence. Qed.

Lemma str_length_app (a b : string) : length (a ++ b) = length a + length b.
Proof. induction a; simpl; auto. Qed.

Lemma substring_app_l (a b : string) : substring 0 (length a) (a ++ b) = a.
Proof. induction a; simpl; [destruct b; reflexivity | congruence]. Qed.

Lemma substring_app_r (a b : string) (m : nat) :
  substring (length a) m (a ++ b) = substring 0 m b.
Proof. induction a; simpl; auto. Qed.

Lemma substring_whole (b : string) : substring 0 (length b) b = b.
Proof. rewrite <- (str_app_nil_r b) at 2. rewrite substring_app_l. reflexivity. Qed.

Lemma list_ascii_of_string_app (a b : string) :
  list_ascii_of_string (a ++ b) = (list_ascii_of_string a ++ list_ascii_of_string b)%list.
Proof. induction a; simpl; congruence. Qed.

Lemma rev_string_involutive (s : string) : rev_string (rev_string s) = s.
Proof.
  unfold rev_string.
  rewrite list_ascii_of_string_of_list_ascii, rev_involutive,
    string_of_list_ascii_of_string.
  reflexivity.
Qed.

Lemma rev_string_snoc (a : string) (l : ascii) :
  rev_string (a ++ String l "") = String l (rev_string a).
Proof.
  unfold rev_string. rewrite list_ascii_of_string_app, rev_app_distr. reflexivity.
Qed.

(** * The prefix rule *)

Lemma name_tail_ok_shape (t : string) :
  name_tail_ok t = true ->
  exists mid l, t = mid ++ String l "" /\ all_chars is_name_char mid = true
                /\ is_last_char l = true.
Proof.
  induction t as [|c t IH]; simpl; [discriminate|].
  destruct t as [|c' t'].
  - intro H. exists "", c. auto.
  - intro H. apply andb_prop in H as [Hc Ht].
    destruct (IH Ht) as (mid & l & -> & Hmid & Hl).
    exists (String c mid), l. simpl. rewrite Hc, Hmid. auto.
Qed.

Lemma all_chars_app (p : ascii -> bool) (a b : string) :
  all_chars p (a ++ b) = all_chars p a && all_chars p b.
Proof. induction a; simpl; auto. rewrite IHa. apply andb_assoc. Qed.

Lemma to_upper_name_char (c : ascii) : is_name_char c = true -> to_upper_char c = c.
Proof.
  unfold is_name_char, is_upper, is_digit, is_underscore, to_upper_char.
  intro H.
  destruct (Ascii.eqb c "_") eqn:Hu.
  { apply Ascii.eqb_eq in Hu. subst c. reflexivity. }
  rewrite orb_false_r in H.
  destruct (Nat.leb 97 (nat_of_ascii c) && Nat.leb (nat_of_ascii c) 122) eqn:E;
    [|reflexivity].
  exfalso.
  apply andb_prop in E as [E1 E2]. apply Nat.leb_le in E1. apply Nat.leb_le in E2.
  apply orb_prop in H as [H|H]; apply andb_prop in H as [H1 H2];
    apply Nat.leb_le in H1; apply Nat.leb_le in H2; lia.
Qed.

Lemma ToUpper_id (s : string) : all_chars is_name_char s = true -> ToUpper s = s.
Proof.
  induction s as [|c s IH]; simpl; auto.
  intro H. apply andb_prop in H as [Hc Hs].
  rewrite (to_upper_name_char _ Hc), (IH Hs). reflexivity.
Qed.

Lemma last_char_not_underscore (c : ascii) : is_last_char c = true -> is_underscore c = false.
Proof.
  unfold is_last_char, is_upper, is_digit, is_underscore.
  destruct (Ascii.eqb c "_") eqn:Hu; [|auto].
  apply Ascii.eqb_eq in Hu. subst c. vm_compute. auto.
Qed.

Lemma upper_is_last_char (c : ascii) : is_upper c = true -> is_last_char c = true.
Proof. unfold is_last_char. intros ->. reflexivity. Qed.

Lemma last_char_is_name_char (c : ascii) : is_last_char c = true -> is_name_char c = true.
Proof. unfold is_last_char, is_name_char. intros ->. reflexivity. Qed.

(** An accepted prefix is left as it is by [ToUpper] and [Trim(_, "_")]. *)
Lemma normalize_prefix_valid (p : string) :
  envVarPrefixRegex_MatchString p = true -> normalize_prefix p = p ++ "_".
Proof.
  unfold envVarPrefixRegex_MatchString, name_ok, normalize_prefix.
  destruct p as [|c t]; [discriminate|].
  intro H. apply andb_prop in H as [Hc Ht].
  destruct (name_tail_ok_shape t Ht) as (mid & l & -> & Hmid & Hl).
  assert (Hall : all_chars is_name_char (String c (mid ++ String l "")) = true).
  { simpl. rewrite all_chars_app. simpl.
    rewrite (last_char_is_name_char _ (upper_is_last_char _ Hc)), Hmid,
      (last_char_is_name_char _ Hl). reflexivity. }
  rewrite (ToUpper_id _ Hall).
  unfold Trim_underscore, TrimRightFunc. simpl TrimLeftFunc at 2.
  rewrite (last_char_not_underscore _ (upper_is_last_char _ Hc)).
  change (String c (mid ++ String l "")) with (String c mid ++ String l "").
  rewrite rev_string_snoc. simpl TrimLeftFunc.
  rewrite (last_char_not_underscore _ Hl).
  rewrite <- rev_string_snoc, rev_string_involutive. reflexivity.
Qed.

(** * Placeholder substitution *)

#[local] Arguments placeholder_at : simpl never.

Lemma name_tail_ok_all (t : string) : name_tail_ok t = true -> all_chars is_name_char t = true.
Proof.
  intro H. destruct (name_tail_ok_shape t H) as (mid & l & -> & Hmid & Hl).
  rewrite all_chars_app, Hmid. simpl. rewrite (last_char_is_name_char _ Hl). reflexivity.
Qed.

Lemma name_ok_all (n : string) : name_ok n = true -> all_chars is_name_char n = true.
Proof.
  destruct n as [|c t]; simpl; [discriminate|].
  intro H. apply andb_prop in H as [Hc Ht].
  rewrite (last_char_is_name_char _ (upper_is_last_char _ Hc)), (name_tail_ok_all _ Ht).
  reflexivity.
Qed.

Lemma span_name_app (a : string) (d : ascii) (x : string) :
  is_name_char d = false ->
  span_name (a ++ String d x) =
  (fst (span_name a), snd (span_name a) ++ String d x).
Proof.
  intro Hd. induction a as [|c a IH]; simpl.
  - rewrite Hd. reflexivity.
  - destruct (is_name_char c); [|reflexivity].
    rewrite IH. destruct (span_name a). reflexivity.
Qed.

Lemma span_name_names (n : string) (d : ascii) (x : string) :
  all_chars is_name_char n = true -> is_name_char d = false ->
  span_name (n ++ String d x) = (n, String d x).
Proof.
  intros Hn Hd. rewrite (span_name_app _ _ _ Hd).
  induction n as [|c n IH]; simpl in *; [reflexivity|].
  apply andb_prop in Hn as [Hc Hn]. rewrite Hc.
  specialize (IH Hn). destruct (span_name n). simpl in *. congruence.
Qed.

Lemma span_name_length (s : string) : length (snd (span_name s)) <= length s.
Proof.
  induction s as [|c s IH]; simpl; [auto|].
  destruct (is_name_char c); simpl; [|auto].
  destruct (span_name s) eqn:E. simpl in *. lia.
Qed.

Lemma placeholder_at_shorter (s group rest : string) :
  placeholder_at s = Some (group, rest) -> length rest < length s.
Proof.
  destruct s as [|c0 [|c1 s']]; unfold placeholder_at; try discriminate.
  destruct (Ascii.eqb c0 "$" && Ascii.eqb c1 "{"); [|discriminate].
  pose proof (span_name_length s') as Hl.
  destruct (span_name s') as [n r]. simpl in Hl.
  destruct r as [|c2 r']; [discriminate|].
  destruct (Ascii.eqb c2 "}" && name_ok n); [|discriminate].
  intro H. inversion H; subst. simpl in *. lia.
Qed.

Lemma replace_all_fuel_enough (f : string -> string) (n : nat) :
  forall m s, length s <= n -> length s <= m ->
  replace_all_fuel n f s = replace_all_fuel m f s.
Proof.
  induction n as [|n IH]; intros m s Hn Hm.
  - destruct s; simpl in Hn; [|lia]. destruct m; reflexivity.
  - destruct s as [|c s'].
    + destruct m; reflexivity.
    + destruct m as [|m]; [simpl in Hm; lia|].
      simpl. destruct (placeholder_at (String c s')) as [[g r]|] eqn:E.
      * pose proof (placeholder_at_shorter _ _ _ E). simpl in *.
        f_equal. apply IH; lia.
      * simpl in *. f_equal. apply IH; lia.
Qed.

Lemma ReplaceAllStringFunc_step (f : string -> string) (c : ascii) (s' : string) :
  ReplaceAllStringFunc f (String c s') =
  match placeholder_at (String c s') with
  | Some (group, rest) => f group ++ ReplaceAllStringFunc f rest
  | None => String c (ReplaceAllStringFunc f s')
  end.
Proof.
  unfold ReplaceAllStringFunc. simpl length. simpl replace_all_fuel.
  destruct (placeholder_at (String c s')) as [[g r]|] eqn:E.
  - pose proof (placeholder_at_shorter _ _ _ E). simpl in *.
    f_equal. apply replace_all_fuel_enough; lia.
  - reflexivity.
Qed.

Lemma placeholder_at_token (name rest : string) :
  name_ok name = true ->
  placeholder_at ("${" ++ name ++ "}" ++ rest) = Some ("${" ++ name ++ "}", rest).
Proof.
  intro Hn. unfold placeholder_at. simpl.
  rewrite (span_name_names name "}" rest (name_ok_all _ Hn) eq_refl).
  simpl. rewrite Hn. reflexivity.
Qed.

Lemma placeholder_at_app_dollar (t x : string) :
  t <> "" -> placeholder_at t = None ->
  placeholder_at (t ++ String "$" x) = None.
Proof.
  intros Hne H.
  destruct t as [|c0 [|c1 t2]]; [contradiction| |].
  - unfold placeholder_at. simpl. rewrite andb_false_r. destruct (Ascii.eqb c0 "$"); reflexivity.
  - unfold placeholder_at in *. simpl in *. destruct (Ascii.eqb c0 "$" && Ascii.eqb c1 "{"); [|reflexivity].
    rewrite (span_name_app t2 "$" x eq_refl).
    destruct (span_name t2) as [n r]. simpl.
    destruct r as [|c2 r']; simpl; [reflexivity|].
    destruct (Ascii.eqb c2 "}" && name_ok n); [discriminate|reflexivity].
Qed.

Lemma ReplaceAllStringFunc_free (f : string -> string) (lit : string) :
  placeholder_free lit = true -> ReplaceAllStringFunc f lit = lit.
Proof.
  induction lit as [|c lit IH]; [reflexivity|].
  intro H. rewrite ReplaceAllStringFunc_step. simpl in H.
  destruct (placeholder_at (String c lit)); [discriminate|].
  rewrite (IH H). reflexivity.
Qed.

Lemma ReplaceAllStringFunc_token (f : string -> string) (lit name rest : string) :
  placeholder_free lit = true -> name_ok name = true ->
  ReplaceAllStringFunc f (lit ++ "${" ++ name ++ "}" ++ rest)
  = lit ++ f ("${" ++ name ++ "}") ++ ReplaceAllStringFunc f rest.
Proof.
  intros Hlit Hn. induction lit as [|c lit IH].
  - pose proof (placeholder_at_token name rest Hn) as E.
    cbn [append] in *.
    rewrite ReplaceAllStringFunc_step, E. reflexivity.
  - simpl in Hlit. destruct (placeholder_at (String c lit)) eqn:E; [discriminate|].
    pose proof (placeholder_at_app_dollar (String c lit)
                  (String "{" (name ++ "}" ++ rest)) ltac:(discriminate) E) as E'.
    cbn [append] in *.
    rewrite ReplaceAllStringFunc_step, E', (IH Hlit). reflexivity.
Qed.

Lemma sanitize_token (name : string) :
  sanitizePlaceholderToken ("${" ++ name ++ "}") = name.
Proof.
  unfold sanitizePlaceholderToken, TrimPrefix, HasPrefix.
  rewrite (substring_app_l "${" (name ++ "}")), String.eqb_refl.
  rewrite (str_length_app "${" (name ++ "}")).
  replace (length "${" + length (name ++ "}") - length "${")
    with (length (name ++ "}")) by lia.
  rewrite substring_app_r, substring_whole.
  unfold TrimSuffix, HasSuffix.
  rewrite (str_length_app name "}").
  replace (length name + length "}" - length "}") with (length name) by lia.
  rewrite substring_app_r, substring_whole, String.eqb_refl.
  replace (Nat.leb (length "}") (length name + length "}")) with true
    by (symmetry; apply Nat.leb_le; lia).
  apply substring_app_l.
Qed.

(** * Help requests *)

Lemma flag_parse_help (args : list string) :
  forall usage fs fs',
    flag_parse usage fs args = (fs', Some ErrHelp) -> output fs' = output fs ++ usage.
Proof.
  wf_args_induction args IH.
  intros usage fs fs' H.
  destruct args as [|s rest]; [simpl in H; congruence|].
  split_flag_parse H; subst;
  lazymatch type of H with
  | failf _ _ _ = _ => unfold failf in H; congruence
  | (_, _) = _ => inversion H; subst; reflexivity
  | flag_parse _ (set_configJSON _ _ _) _ = _ =>
      refine (eq_trans (IH _ _ _ _ _ H) _); [unfold ltof; simpl; lia|reflexivity]
  | flag_parse _ (set_version _ _ _) _ = _ =>
      refine (eq_trans (IH _ _ _ _ _ H) _); [unfold ltof; simpl; lia|reflexivity]
  end.
Qed.

(** The bytes of an accepted prefix, as the regular expression reads them. *)
Lemma envVarPrefixRegex_MatchString_spec (p : string) :
  envVarPrefixRegex_MatchString p = true <->
  exists c mid l, p = String c (mid ++ String l "") /\ is_upper c = true
                  /\ all_chars is_name_char mid = true /\ is_last_char l = true.
Proof.
  split.
  - unfold envVarPrefixRegex_MatchString, name_ok.
    destruct p as [|c t]; [discriminate|].
    intro H. apply andb_prop in H as [Hc Ht].
    destruct (name_tail_ok_shape t Ht) as (mid & l & -> & Hmid & Hl).
    exists c, mid, l. auto.
  - intros (c & mid & l & -> & Hc & Hmid & Hl).
    unfold envVarPrefixRegex_MatchString, name_ok. rewrite Hc. simpl.
    clear c Hc. induction mid as [|c mid IH]; simpl in *; [exact Hl|].
    apply andb_prop in Hmid as [Hc Hmid]. rewrite Hc.
    destruct mid; simpl in *; [exact Hl|]. exact (IH Hmid).
Qed.

Section ParseTheorems.

Variable json_MarshalIndent : gvalue -> heap -> string -> string -> string + error.
Variable json_Unmarshal : string -> gvalue -> heap -> heap * option error.
Variable PrintDefaults : list Flag -> string.

Local Abbreviation ParseC := (Parse json_MarshalIndent json_Unmarshal PrintDefaults).
Local Abbreviation usage := (usage_text PrintDefaults).

Ltac enter_parse Hm :=
  unfold Parse; rewrite Hm; cbv beta iota zeta delta [negb].

(** C2: a prefix rejected by [envVarPrefixRegex] makes [Parse] return the
    empty string and the error
    [environment variable prefix [<prefix>] must start with a letter then
    letters or underscores], with the prefix verbatim, whatever the
    environment, the arguments, the other parameters and the heap; the heap
    is left as it is. *)
Theorem Parse_invalid_prefix (envVarPrefix : string) :
  envVarPrefixRegex_MatchString envVarPrefix = false ->
  forall lookupEnv args description info conf h,
  ParseC lookupEnv args envVarPrefix description info conf h
  = ("", Some (Errorf ("environment variable prefix [" ++ envVarPrefix
       ++ "] must start with a letter then letters or underscores")), h).
Proof. intros Hm *. unfold Parse. rewrite Hm. reflexivity. Qed.

(** C8: for an accepted prefix, a failure of [json.MarshalIndent] on the
    configuration target makes [Parse] return the empty string and that very
    error, for every argument list (no flag is parsed). *)
Theorem Parse_marshal_error (envVarPrefix : string) lookupEnv description info
    conf h (err : error) :
  envVarPrefixRegex_MatchString envVarPrefix = true ->
  json_MarshalIndent conf h "  " "  " = inr err ->
  forall args, ParseC lookupEnv args envVarPrefix description info conf h = ("", Some err, h).
Proof. intros Hm Hj args. enter_parse Hm. rewrite Hj. reflexivity. Qed.

(** C9: when the flag parser returns [flag.ErrHelp], [Parse] returns the
    text it wrote (the usage text) and no error; when it returns any other
    error, [Parse] returns the text it wrote and that error. *)
Theorem Parse_flag_errors (envVarPrefix : string) lookupEnv args description
    info conf h confRef fs (err : error) :
  envVarPrefixRegex_MatchString envVarPrefix = true ->
  json_MarshalIndent conf h "  " "  " = inl confRef ->
  flag_parse
    (usage (normalize_prefix envVarPrefix) confRef
       (configJSON (initial_flagset lookupEnv (normalize_prefix envVarPrefix))))
    (initial_flagset lookupEnv (normalize_prefix envVarPrefix)) args = (fs, Some err) ->
  (err = ErrHelp ->
     output fs = usage (normalize_prefix envVarPrefix) confRef
                   (configJSON (initial_flagset lookupEnv (normalize_prefix envVarPrefix)))
     /\ ParseC lookupEnv args envVarPrefix description info conf h = (output fs, None, h))
  /\ (err <> ErrHelp ->
     ParseC lookupEnv args envVarPrefix description info conf h = (output fs, Some err, h)).
Proof.
  intros Hm Hj Hf. split.
  - intros ->. split.
    + exact (flag_parse_help _ _ _ _ Hf).
    + enter_parse Hm. rewrite Hj. cbv beta iota zeta. rewrite Hf. reflexivity.
  - intros Hne. enter_parse Hm. rewrite Hj. cbv beta iota zeta. rewrite Hf.
    destruct err; [contradiction|reflexivity].
Qed.


(** C4: [--version] returns the release text
    [Release: <version>\nCommit: <commit>\nBuild Time: <timestamp>\nBuilt with: <runtime>\n]
    with no error, and with empty fields for a nil [info]; but the short
    form [-v] is not a registered flag: [Parse] returns the parser's output
    and the error [flag provided but not defined: -v]. *)
Theorem Parse_version_flag (envVarPrefix : string) lookupEnv description info
    conf h confRef :
  envVarPrefixRegex_MatchString envVarPrefix = true ->
  json_MarshalIndent conf h "  " "  " = inl confRef ->
  (forall i, info = Some i ->
     ParseC lookupEnv ["--version"] envVarPrefix description info conf h
     = ("Release: " ++ ReleaseVersion i ++ nl ++ "Commit: " ++ GitCommit i ++ nl
        ++ "Build Time: " ++ BuildTimestamp i ++ nl ++ "Built with: " ++ GoVersion i
        ++ nl, None, h))
  /\ (info = None ->
     ParseC lookupEnv ["--version"] envVarPrefix description info conf h
     = ("Release: " ++ nl ++ "Commit: " ++ nl ++ "Build Time: " ++ nl
        ++ "Built with: " ++ nl, None, h))
  /\ ParseC lookupEnv ["-v"] envVarPrefix description info conf h
     = ("flag provided but not defined: -v" ++ nl
        ++ usage (normalize_prefix envVarPrefix) confRef
             (getEnv lookupEnv (normalize_prefix envVarPrefix) "CONFIG" "{}"),
        Some (Errorf "flag provided but not defined: -v"), h).
Proof.
  intros Hm Hj. split; [|split].
  - intros i ->. enter_parse Hm. rewrite Hj. reflexivity.
  - intros ->. enter_parse Hm. rewrite Hj. reflexivity.
  - enter_parse Hm. rewrite Hj. reflexivity.
Qed.

(** C1: with the prefix [TEST], the environment [TEST_NAME=Bob] and the
    arguments [-c {"id":1,"name":"${NAME}","online":true}], [Parse] does not
    populate the target: [-c] is not a registered flag, and [Parse] returns
    the parser's output with the error [flag provided but not defined: -c],
    the heap unchanged.  With the long form [--config] the substituted text
    [{"id":1,"name":"Bob","online":true}] is handed to the decoder. *)
Theorem Parse_short_config_flag (description : string) info conf h confRef :
  json_MarshalIndent conf h "  " "  " = inl confRef ->
  ParseC env_test ["-c"; test_config_arg] "TEST" description info conf h
  = ("flag provided but not defined: -c" ++ nl ++ usage "TEST_" confRef "{}",
     Some (Errorf "flag provided but not defined: -c"), h)
  /\ (conf <> GNil ->
      ParseC env_test ["--config"; test_config_arg] "TEST" description info conf h
      = match json_Unmarshal
                ("{" ++ dq ++ "id" ++ dq ++ ":1," ++ dq ++ "name" ++ dq ++ ":" ++ dq
                 ++ "Bob" ++ dq ++ "," ++ dq ++ "online" ++ dq ++ ":true}") conf h with
        | (h', Some err) => ("", Some err, h')
        | (h', None) => ("", None, h')
        end).
Proof.
  intro Hj. split.
  - unfold Parse. simpl envVarPrefixRegex_MatchString. cbv beta iota zeta delta [negb].
    change (normalize_prefix "TEST") with "TEST_". rewrite Hj. reflexivity.
  - intro Hn. unfold Parse. simpl envVarPrefixRegex_MatchString.
    cbv beta iota zeta delta [negb].
    change (normalize_prefix "TEST") with "TEST_". rewrite Hj.
    destruct conf; [contradiction|reflexivity..].
Qed.


(** C5: on the configuration path (flags parsed, [version] unset), the
    configuration string, after placeholder substitution, is trimmed with
    [strings.TrimSpace] and decoded into the target: a nil target is not
    decoded and [Parse] returns no error; a decoding error is returned as it
    is, with the empty string; a successful decoding returns the empty
    string, no error and the heap the decoder produced. *)
Theorem Parse_decode_step (envVarPrefix : string) lookupEnv args description
    info conf h confRef fs :
  envVarPrefixRegex_MatchString envVarPrefix = true ->
  json_MarshalIndent conf h "  " "  " = inl confRef ->
  flag_parse
    (usage (normalize_prefix envVarPrefix) confRef
       (configJSON (initial_flagset lookupEnv (normalize_prefix envVarPrefix))))
    (initial_flagset lookupEnv (normalize_prefix envVarPrefix)) args = (fs, None) ->
  version fs = false ->
  (conf = GNil ->
     ParseC lookupEnv args envVarPrefix description info conf h = ("", None, h))
  /\ (conf <> GNil -> forall h' err,
     json_Unmarshal
       (TrimSpace (substitute lookupEnv (normalize_prefix envVarPrefix) (configJSON fs)))
       conf h = (h', Some err) ->
     ParseC lookupEnv args envVarPrefix description info conf h = ("", Some err, h'))
  /\ (conf <> GNil -> forall h',
     json_Unmarshal
       (TrimSpace (substitute lookupEnv (normalize_prefix envVarPrefix) (configJSON fs)))
       conf h = (h', None) ->
     ParseC lookupEnv args envVarPrefix description info conf h = ("", None, h')).
Proof.
  intros Hm Hj Hf Hv.
  pose proof (proj1 (flag_parse_ok _ _ _ _ Hf)) as Ho. simpl in Ho.
  enter_parse Hm. rewrite Hj. cbv beta iota zeta. rewrite Hf, Hv, Ho.
  split; [|split].
  - intros ->. reflexivity.
  - intros Hn h' err Hu.
    destruct conf; [contradiction| rewrite Hu; reflexivity ..].
  - intros Hn h' Hu.
    destruct conf; [contradiction| rewrite Hu; reflexivity ..].
Qed.

(** C6: the configuration string the flags resolve to is the value given
    to [--config] when the option is on the command line, whatever the
    environment holds; otherwise it is the value of [<PREFIX>_CONFIG] when
    that variable is set, and ["{}"] when it is not. *)
Theorem Parse_config_precedence (envVarPrefix : string) lookupEnv args
    (usage_txt : string) fs :
  envVarPrefixRegex_MatchString envVarPrefix = true ->
  flag_parse usage_txt (initial_flagset lookupEnv (normalize_prefix envVarPrefix)) args
  = (fs, None) ->
  (~ In "config" (actual fs) ->
     configJSON fs = match lookupEnv (envVarPrefix ++ "_CONFIG") with
                     | Some v => v
                     | None => "{}"
                     end)
  /\ (In "config" (actual fs) -> forall lookupEnv' usage_txt',
     flag_parse usage_txt' (initial_flagset lookupEnv' (normalize_prefix envVarPrefix)) args
     = (fs, None))
  /\ (forall v lookupEnv' usage_txt',
     flag_parse usage_txt' (initial_flagset lookupEnv' (normalize_prefix envVarPrefix))
       ["--config"; v]
     = (mkFlagSet v false ["config"] "", None)).
Proof.
  intros Hm Hf. split; [|split].
  - intro Hnot. rewrite (flag_parse_config_default _ _ _ _ Hf Hnot).
    unfold initial_flagset, getEnv, getEnvKey. simpl configJSON.
    rewrite (normalize_prefix_valid _ Hm), str_app_assoc. reflexivity.
  - intros Hin lookupEnv' usage_txt'.
    destruct (flag_parse_ok _ _ _ _ Hf) as (_ & Hu & _).
    exact (flag_parse_config_explicit _ _ _ _
             (getEnv lookupEnv' (normalize_prefix envVarPrefix) "CONFIG" "{}")
             (Hu usage_txt') Hin (fun H => H)).
  - intros v lookupEnv' usage_txt'. reflexivity.
Qed.


(** C7 (as the code has it): validation comes first, so only prefixes of
    the form [[A-Z][A-Z0-9_]*[A-Z0-9]] are normalized; for each of them
    uppercasing, trimming underscores and appending one underscore gives the
    prefix followed by one underscore, and every environment key is built
    from it.  The prefix [test] is rejected with the invalid-prefix error. *)
Theorem normalize_prefix_accepted :
  (forall envVarPrefix,
     envVarPrefixRegex_MatchString envVarPrefix = true ->
     normalize_prefix envVarPrefix = envVarPrefix ++ "_"
     /\ forall key, getEnvKey (normalize_prefix envVarPrefix) key = envVarPrefix ++ "_" ++ key)
  /\ (forall lookupEnv args description info conf h,
     ParseC lookupEnv args "test" description info conf h
     = ("", Some (Errorf (prefix_error_message "test")), h)).
Proof.
  split.
  - intros p Hm. rewrite (normalize_prefix_valid _ Hm). split; [reflexivity|].
    intro key. unfold getEnvKey. apply str_app_assoc.
  - intros. reflexivity.
Qed.

(** C10: [Parse] leaves the heap, hence the configuration target, as it
    is, except through the final [json.Unmarshal] of the configuration
    path; in particular the help and error paths of the flag parser and the
    version path leave it unchanged. *)
Theorem Parse_frame (envVarPrefix : string) lookupEnv args description info conf h :
  (forall out r h',
     ParseC lookupEnv args envVarPrefix description info conf h = (out, r, h') ->
     h' = h
     \/ exists confRef fs,
          envVarPrefixRegex_MatchString envVarPrefix = true
          /\ json_MarshalIndent conf h "  " "  " = inl confRef
          /\ flag_parse
               (usage (normalize_prefix envVarPrefix) confRef
                  (configJSON (initial_flagset lookupEnv (normalize_prefix envVarPrefix))))
               (initial_flagset lookupEnv (normalize_prefix envVarPrefix)) args = (fs, None)
          /\ version fs = false
          /\ conf <> GNil
          /\ fst (json_Unmarshal
                    (TrimSpace (substitute lookupEnv (normalize_prefix envVarPrefix)
                                  (configJSON fs))) conf h) = h')
  /\ (forall confRef fs err,
     envVarPrefixRegex_MatchString envVarPrefix = true ->
     json_MarshalIndent conf h "  " "  " = inl confRef ->
     flag_parse
       (usage (normalize_prefix envVarPrefix) confRef
          (configJSON (initial_flagset lookupEnv (normalize_prefix envVarPrefix))))
       (initial_flagset lookupEnv (normalize_prefix envVarPrefix)) args = (fs, Some err) ->
     snd (ParseC lookupEnv args envVarPrefix description info conf h) = h)
  /\ (forall confRef fs,
     envVarPrefixRegex_MatchString envVarPrefix = true ->
     json_MarshalIndent conf h "  " "  " = inl confRef ->
     flag_parse
       (usage (normalize_prefix envVarPrefix) confRef
          (configJSON (initial_flagset lookupEnv (normalize_prefix envVarPrefix))))
       (initial_flagset lookupEnv (normalize_prefix envVarPrefix)) args = (fs, None) ->
     version fs = true ->
     snd (ParseC lookupEnv args envVarPrefix description info conf h) = h).
Proof.
  split; [|split].
  - intros out r h' H. unfold Parse in H. cbv zeta in H.
    destruct (envVarPrefixRegex_MatchString envVarPrefix) eqn:Hm;
      simpl negb in H; cbv iota in H; [|inversion H; auto].
    destruct (json_MarshalIndent conf h "  " "  ") as [confRef|e] eqn:Hj;
      [|inversion H; auto].
    match type of H with
    | context [flag_parse ?u ?f args] => destruct (flag_parse u f args) as [fs [e|]] eqn:Hf
    end.
    + destruct e; inversion H; auto.
    + destruct (version fs) eqn:Hv; [inversion H; auto|].
      destruct conf.
      1: inversion H; auto.
      all: destruct (json_Unmarshal _ _ h) as [h1 [e|]] eqn:Hu;
        (inversion H; subst; right; exists confRef, fs;
         do 4 (split; [first [assumption | reflexivity]|]);
         split; [discriminate|]; rewrite Hu; reflexivity).
  - intros confRef fs err Hm Hj Hf.
    enter_parse Hm. rewrite Hj. cbv beta iota zeta. rewrite Hf.
    destruct err; reflexivity.
  - intros confRef fs Hm Hj Hf Hv.
    enter_parse Hm. rewrite Hj. cbv beta iota zeta. rewrite Hf, Hv. reflexivity.
Qed.

End ParseTheorems.

(** C3: placeholder substitution replaces a placeholder [${NAME}] (its name
    matching [[A-Z][A-Z0-9_]*?[A-Z0-9]]) by the value of the environment
    variable [<prefix><NAME>], or by the empty string when it is not set;
    the text before it, in which no match starts, is kept, the inserted value
    is never searched again, and the search goes on in the original text
    after the placeholder; text in which no match starts is kept as it is. *)
Theorem substitute_placeholders :
  (forall lookupEnv prefix lit name rest,
     placeholder_free lit = true -> name_ok name = true ->
     substitute lookupEnv prefix (lit ++ "${" ++ name ++ "}" ++ rest)
     = lit ++ match lookupEnv (prefix ++ name) with Some v => v | None => "" end
           ++ substitute lookupEnv prefix rest)
  /\ (forall lookupEnv prefix lit,
     placeholder_free lit = true -> substitute lookupEnv prefix lit = lit).
Proof.
  split.
  - intros lookupEnv prefix lit name rest Hlit Hn. unfold substitute.
    rewrite (ReplaceAllStringFunc_token _ _ _ _ Hlit Hn), sanitize_token.
    reflexivity.
  - intros lookupEnv prefix lit Hlit. unfold substitute.
    apply ReplaceAllStringFunc_free. exact Hlit.
Qed.

(** * Witnesses and counterexamples *)

Lemma Parse_invalid_prefix_witness :
  envVarPrefixRegex_MatchString "" = false
  /\ demo_Parse env_test [] "" "" None GNil empty_heap
     = ("", Some (Errorf "environment variable prefix [] must start with a letter then letters or underscores"),
        empty_heap).
Proof.
  split; [reflexivity|].
  apply (Parse_invalid_prefix demo_MarshalIndent demo_Unmarshal demo_PrintDefaults "").
  reflexivity.
Defined.

Lemma Parse_marshal_error_witness :
  demo_Parse env_test [""] "TEST" "" None GChan empty_heap
  = ("", Some (Errorf "json: unsupported type: chan int"), empty_heap).
Proof.
  apply (Parse_marshal_error demo_MarshalIndent demo_Unmarshal demo_PrintDefaults
           "TEST" env_test "" None GChan empty_heap (Errorf "json: unsupported type: chan int"));
    reflexivity.
Defined.

Lemma Parse_flag_errors_witness :
  demo_Parse env_test ["-h"] "TEST" "" None GNil empty_heap
  = ("Usage:" ++ nl ++ "  -config" ++ nl ++ "  -version" ++ nl, None, empty_heap).
Proof.
  refine (proj2 (proj1 (Parse_flag_errors demo_MarshalIndent demo_Unmarshal
    demo_PrintDefaults "TEST" env_test ["-h"] "" None GNil empty_heap "null"
    (mkFlagSet "{}" false [] ("Usage:" ++ nl ++ "  -config" ++ nl ++ "  -version" ++ nl))
    ErrHelp _ _ _) _)); reflexivity.
Defined.

Lemma Parse_version_flag_witness :
  demo_Parse env_test ["-v"] "TEST" "" None (GPtr 0) empty_heap
  = ("flag provided but not defined: -v" ++ nl
     ++ "Usage:" ++ nl ++ "  -config" ++ nl ++ "  -version" ++ nl,
     Some (Errorf "flag provided but not defined: -v"), empty_heap)
  /\ demo_Parse env_test ["--version"] "TEST" "" None (GPtr 0) empty_heap
     = ("Release: " ++ nl ++ "Commit: " ++ nl ++ "Build Time: " ++ nl
        ++ "Built with: " ++ nl, None, empty_heap).
Proof.
  destruct (Parse_version_flag demo_MarshalIndent demo_Unmarshal demo_PrintDefaults
              "TEST" env_test "" None (GPtr 0) empty_heap "{}") as (_ & Hnone & Hv);
    [reflexivity | reflexivity |].
  split; [exact Hv | exact (Hnone eq_refl)].
Defined.

Lemma Parse_short_config_flag_witness :
  demo_Parse env_test ["-c"; test_config_arg] "TEST" "" None (GPtr 0) empty_heap
  = ("flag provided but not defined: -c" ++ nl
     ++ "Usage:" ++ nl ++ "  -config" ++ nl ++ "  -version" ++ nl,
     Some (Errorf "flag provided but not defined: -c"), empty_heap).
Proof.
  refine (proj1 (Parse_short_config_flag demo_MarshalIndent demo_Unmarshal
                   demo_PrintDefaults "" None (GPtr 0) empty_heap "{}" _)).
  reflexivity.
Defined.

Lemma Parse_decode_step_witness :
  demo_Parse env_test [] "TEST" "" None (GMap []) empty_heap
  = ("", Some (Errorf "json: Unmarshal(non-pointer map[string]interface {})"), empty_heap).
Proof.
  refine (proj1 (proj2 (Parse_decode_step demo_MarshalIndent demo_Unmarshal
    demo_PrintDefaults "TEST" env_test [] "" None (GMap []) empty_heap "{}"
    (mkFlagSet "{}" false [] "") _ _ _ _)) _ empty_heap _ _);
    [reflexivity | reflexivity | reflexivity | reflexivity | discriminate | reflexivity].
Defined.

Lemma Parse_config_precedence_witness :
  configJSON (mkFlagSet "ENV" false [] "") = "ENV"
  /\ flag_parse "" (initial_flagset env_test (normalize_prefix "TEST")) ["--config"; "FLAG"]
     = (mkFlagSet "FLAG" false ["config"] "", None).
Proof.
  split.
  - refine (proj1 (Parse_config_precedence "TEST" env_cfg [] ""
                     (mkFlagSet "ENV" false [] "") _ _) _);
      [reflexivity | reflexivity | simpl; tauto].
  - refine (proj1 (proj2 (Parse_config_precedence "TEST" env_cfg ["--config"; "FLAG"] ""
                     (mkFlagSet "FLAG" false ["config"] "") _ _)) _ env_test "");
      [reflexivity | reflexivity | simpl; tauto].
Defined.

Lemma normalize_prefix_accepted_witness :
  normalize_prefix "TEST" = "TEST" ++ "_"
  /\ getEnvKey (normalize_prefix "TEST") "NAME" = "TEST" ++ "_" ++ "NAME".
Proof.
  destruct (proj1 (normalize_prefix_accepted demo_MarshalIndent demo_Unmarshal
                     demo_PrintDefaults) "TEST") as [Hn Hk]; [reflexivity|].
  split; [exact Hn | exact (Hk "NAME")].
Defined.

Lemma normalize_test_counterexample :
  envVarPrefixRegex_MatchString "test" = false
  /\ demo_Parse env_test [] "test" "" None (GPtr 0) empty_heap
     = ("", Some (Errorf (prefix_error_message "test")), empty_heap).
Proof. split; reflexivity. Qed.

Lemma Parse_frame_witness :
  snd (demo_Parse env_test ["--version"] "TEST" "" None (GPtr 0) empty_heap) = empty_heap.
Proof.
  refine (proj2 (proj2 (Parse_frame demo_MarshalIndent demo_Unmarshal demo_PrintDefaults
    "TEST" env_test ["--version"] "" None (GPtr 0) empty_heap))
    "{}" (mkFlagSet "{}" true ["version"] "") _ _ _ _); reflexivity.
Defined.

Lemma substitute_placeholders_witness :
  substitute env_chain "TEST_" ("x=" ++ "${" ++ "NAME" ++ "}" ++ "!")
  = "x=" ++ "${OTHER}" ++ substitute env_chain "TEST_" "!"
  /\ substitute env_chain "TEST_" "${NAME}" = "${OTHER}".
Proof.
  split.
  - apply (proj1 substitute_placeholders env_chain "TEST_" "x=" "NAME" "!"); reflexivity.
  - reflexivity.
Defined.

(** * Further properties of [Parse] *)

(** Two flag sets that agree on the bound values and the output parse any
    argument list to the same error, values and output ([actual] aside). *)
Lemma flag_parse_agree (args : list string) :
  forall usage fs1 fs2,
    configJSON fs1 = configJSON fs2 -> version fs1 = version fs2 ->
    output fs1 = output fs2 ->
    snd (flag_parse usage fs1 args) = snd (flag_parse usage fs2 args)
    /\ configJSON (fst (flag_parse usage fs1 args)) = configJSON (fst (flag_parse usage fs2 args))
    /\ version (fst (flag_parse usage fs1 args)) = version (fst (flag_parse usage fs2 args))
    /\ output (fst (flag_parse usage fs1 args)) = output (fst (flag_parse usage fs2 args)).
Proof.
  wf_args_induction args IH.
  intros usage fs1 fs2 Hc Hv Ho.
  destruct args as [|s rest]; [simpl; auto|].
  simpl.
  repeat match goal with
  | |- context [match ?x with _ => _ end] =>
      lazymatch x with
      | flag_parse _ _ _ => fail
      | _ => destruct x eqn:?; simpl
      end
  end;
  try (unfold failf, write_output; simpl; rewrite ?Hc, ?Hv, ?Ho; auto; fail);
  (apply IH; [unfold ltof; simpl; lia|simpl; auto ..]).
Qed.

Lemma break_at_eq_none (t : string) :
  ~ In "="%char (list_ascii_of_string t) -> break_at_eq t = None.
Proof.
  induction t as [|c t IH]; [reflexivity|].
  intro H. simpl in *.
  destruct (Ascii.eqb c "=") eqn:E.
  - apply Ascii.eqb_eq in E. subst. tauto.
  - rewrite IH; tauto.
Qed.

Lemma placeholder_at_not_dollar (c : ascii) (s : string) :
  c <> "$"%char -> placeholder_at (String c s) = None.
Proof.
  intro H. unfold placeholder_at.
  destruct s as [|c1 s]; [reflexivity|].
  apply Ascii.eqb_neq in H. rewrite H. reflexivity.
Qed.

(** Bytes other than ['$'] are copied, and the search goes on after them. *)
Lemma ReplaceAllStringFunc_no_dollar (f : string -> string) (t r : string) :
  ~ In "$"%char (list_ascii_of_string t) ->
  ReplaceAllStringFunc f (t ++ r) = t ++ ReplaceAllStringFunc f r.
Proof.
  induction t as [|c t IH]; [reflexivity|].
  intro H. simpl in H. cbn [append].
  rewrite ReplaceAllStringFunc_step, placeholder_at_not_dollar by (intro; subst; tauto).
  rewrite IH by tauto. reflexivity.
Qed.

Lemma all_chars_false_split (p : ascii -> bool) (n : string) :
  all_chars p n = false ->
  exists a d b, n = a ++ String d b /\ all_chars p a = true /\ p d = false.
Proof.
  induction n as [|c n IH]; [discriminate|].
  simpl. destruct (p c) eqn:Hc; simpl.
  - intro H. destruct (IH H) as (a & d & b & -> & Ha & Hd).
    exists (String c a), d, b. simpl. rewrite Hc. auto.
  - intros _. exists EmptyString, c, n. auto.
Qed.

(** A brace-delimited text whose inside is not a placeholder name (and
    holds neither ['$'] nor ['}']) does not start a match. *)
Lemma placeholder_at_invalid (n rest : string) :
  name_ok n = false ->
  ~ In "$"%char (list_ascii_of_string n) -> ~ In "}"%char (list_ascii_of_string n) ->
  placeholder_at ("${" ++ n ++ "}" ++ rest) = None.
Proof.
  intros Hn Hd Hb. unfold placeholder_at. cbn [append].
  destruct (all_chars is_name_char n) eqn:Ha.
  - rewrite (span_name_names n "}" rest Ha eq_refl). simpl.
    rewrite Hn. reflexivity.
  - destruct (all_chars_false_split _ _ Ha) as (a & d & b & -> & Ha' & Hd').
    rewrite (str_app_assoc a (String d b) (String "}" rest)). cbn [append].
    rewrite (span_name_names a d (b ++ String "}" rest) Ha' Hd'). simpl.
    destruct (Ascii.eqb d "}") eqn:E; [|reflexivity].
    apply Ascii.eqb_eq in E. subst d. exfalso. apply Hb.
    rewrite list_ascii_of_string_app. apply in_or_app. right. left. reflexivity.
Qed.

Section ParseFlagTheorems.

Variable json_MarshalIndent : gvalue -> heap -> string -> string -> string + error.
Variable json_Unmarshal : string -> gvalue -> heap -> heap * option error.
Variable PrintDefaults : list Flag -> string.

Local Abbreviation ParseC := (Parse json_MarshalIndent json_Unmarshal PrintDefaults).
Local Abbreviation usage := (usage_text PrintDefaults).

Ltac enter_parse Hm :=
  unfold Parse; rewrite Hm; cbv beta iota zeta delta [negb].

(** [Parse] reads only the bound values, the output and the error of the
    flag parser: two argument lists the parser treats alike give the same
    result. *)
Lemma Parse_same_flags lookupEnv args1 args2 envVarPrefix description info conf h :
  (forall usage_txt fs, version fs = false ->
     snd (flag_parse usage_txt fs args1) = snd (flag_parse usage_txt fs args2)
     /\ configJSON (fst (flag_parse usage_txt fs args1))
        = configJSON (fst (flag_parse usage_txt fs args2))
     /\ version (fst (flag_parse usage_txt fs args1))
        = version (fst (flag_parse usage_txt fs args2))
     /\ output (fst (flag_parse usage_txt fs args1))
        = output (fst (flag_parse usage_txt fs args2))) ->
  ParseC lookupEnv args1 envVarPrefix description info conf h
  = ParseC lookupEnv args2 envVarPrefix description info conf h.
Proof.
  intro H. unfold Parse.
  destruct (negb (envVarPrefixRegex_MatchString envVarPrefix)); [reflexivity|].
  destruct (json_MarshalIndent conf h "  " "  ") as [confRef|e]; [|reflexivity].
  cbv zeta.
  match goal with
  | |- context [flag_parse ?u ?f args1] =>
      destruct (H u f eq_refl) as (He & Hc & Hv & Ho);
      destruct (flag_parse u f args1) as [f1 e1];
      destruct (flag_parse u f args2) as [f2 e2]
  end.
  simpl in He, Hc, Hv, Ho. subst e2. rewrite Hc, Hv, Ho. reflexivity.
Qed.

Lemma Parse_same_flags_eq lookupEnv args1 args2 envVarPrefix description info conf h :
  (forall usage_txt fs, flag_parse usage_txt fs args1 = flag_parse usage_txt fs args2) ->
  ParseC lookupEnv args1 envVarPrefix description info conf h
  = ParseC lookupEnv args2 envVarPrefix description info conf h.
Proof.
  intro H. apply Parse_same_flags. intros u fs _. rewrite H. auto.
Qed.

(** X4: the arguments [-h], [--h], [-help] and [--help] in first position
    make [Parse] return the usage text and no error, with the heap as it
    is, whatever follows them and whatever the description. *)
Theorem Parse_help_flags (envVarPrefix : string) lookupEnv description info conf h
    confRef (s : string) (rest : list string) :
  envVarPrefixRegex_MatchString envVarPrefix = true ->
  json_MarshalIndent conf h "  " "  " = inl confRef ->
  In s ["-h"; "--h"; "-help"; "--help"] ->
  ParseC lookupEnv (s :: rest) envVarPrefix description info conf h
  = (usage (normalize_prefix envVarPrefix) confRef
       (getEnv lookupEnv (normalize_prefix envVarPrefix) "CONFIG" "{}"), None, h).
Proof.
  intros Hm Hj Hs. enter_parse Hm. rewrite Hj.
  destruct Hs as [<-|[<-|[<-|[<-|[]]]]]; reflexivity.
Qed.


(** X6: [-config=v], [--config=v], [-config v] and [--config v] are the
    same option; the value after [=] is taken whole, even when it holds
    [=] itself. *)
Theorem Parse_config_forms lookupEnv (v : string) (rest : list string)
    envVarPrefix description info conf h :
  Parse json_MarshalIndent json_Unmarshal PrintDefaults lookupEnv (("-config=" ++ v) :: rest) envVarPrefix description info conf h
  = Parse json_MarshalIndent json_Unmarshal PrintDefaults lookupEnv ("--config" :: v :: rest) envVarPrefix description info conf h
  /\ Parse json_MarshalIndent json_Unmarshal PrintDefaults lookupEnv (("--config=" ++ v) :: rest) envVarPrefix description info conf h
  = Parse json_MarshalIndent json_Unmarshal PrintDefaults lookupEnv ("--config" :: v :: rest) envVarPrefix description info conf h
  /\ Parse json_MarshalIndent json_Unmarshal PrintDefaults lookupEnv ("-config" :: v :: rest) envVarPrefix description info conf h
  = Parse json_MarshalIndent json_Unmarshal PrintDefaults lookupEnv ("--config" :: v :: rest) envVarPrefix description info conf h.
Proof.
  split; [|split]; apply Parse_same_flags_eq; intros u fs; reflexivity.
Qed.


(** X8: [--version=<v>] with a value [strconv.ParseBool] reads as false
    ([0], [f], [F], [false], [FALSE], [False]) in first position is the
    same as leaving it out. *)
Theorem Parse_version_false lookupEnv (v : string) (rest : list string)
    envVarPrefix description info conf h :
  ParseBool v = Some false ->
  ParseC lookupEnv (("--version=" ++ v) :: rest) envVarPrefix description info conf h
  = ParseC lookupEnv rest envVarPrefix description info conf h.
Proof.
  intro Hb. apply Parse_same_flags. intros u fs Hv. simpl. rewrite Hb.
  apply flag_parse_agree; simpl; auto.
Qed.


(** X10: [--version] after a [--config] option returns the release text:
    the configuration value is neither substituted nor decoded, whatever it
    is and whatever the decoder would do with it. *)
Theorem Parse_version_over_config (envVarPrefix : string) lookupEnv description
    info conf h confRef (v : string) :
  envVarPrefixRegex_MatchString envVarPrefix = true ->
  json_MarshalIndent conf h "  " "  " = inl confRef ->
  ParseC lookupEnv ["--config"; v; "--version"] envVarPrefix description info conf h
  = (release_text info, None, h).
Proof. intros Hm Hj. enter_parse Hm. rewrite Hj. reflexivity. Qed.

(** X11: [-config] or [--config] as the last argument, with no value after
    it, is the error [flag needs an argument: -config], returned with the
    message and the usage text and the heap as it is. *)
Theorem Parse_config_missing_value (envVarPrefix : string) lookupEnv description
    info conf h confRef (s : string) :
  envVarPrefixRegex_MatchString envVarPrefix = true ->
  json_MarshalIndent conf h "  " "  " = inl confRef ->
  In s ["-config"; "--config"] ->
  ParseC lookupEnv [s] envVarPrefix description info conf h
  = ("flag needs an argument: -config" ++ nl
       ++ usage (normalize_prefix envVarPrefix) confRef
            (getEnv lookupEnv (normalize_prefix envVarPrefix) "CONFIG" "{}"),
     Some (Errorf "flag needs an argument: -config"), h).
Proof.
  intros Hm Hj Hs. enter_parse Hm. rewrite Hj.
  destruct Hs as [<-|[<-|[]]]; reflexivity.
Qed.

(** X12: an option [-<name>] or [--<name>] whose name is not [config],
    [version], [h] or [help] (a name without [=] that does not start with
    [-]) is the error [flag provided but not defined: -<name>], returned
    with the message and the usage text and the heap as it is. *)
Theorem Parse_undefined_flag (envVarPrefix : string) lookupEnv description info
    conf h confRef (c : ascii) (t : string) (dashes : string) (rest : list string) :
  envVarPrefixRegex_MatchString envVarPrefix = true ->
  json_MarshalIndent conf h "  " "  " = inl confRef ->
  In dashes ["-"; "--"] ->
  c <> "-"%char -> ~ In "="%char (list_ascii_of_string (String c t)) ->
  ~ In (String c t) ["config"; "version"; "h"; "help"] ->
  ParseC lookupEnv ((dashes ++ String c t) :: rest) envVarPrefix description info conf h
  = (("flag provided but not defined: -" ++ String c t) ++ nl
       ++ usage (normalize_prefix envVarPrefix) confRef
            (getEnv lookupEnv (normalize_prefix envVarPrefix) "CONFIG" "{}"),
     Some (Errorf ("flag provided but not defined: -" ++ String c t)), h).
Proof.
  intros Hm Hj Hd Hc Heq Hn. simpl in Heq, Hn.
  assert (Hc' : Ascii.eqb c "-" = false) by (apply Ascii.eqb_neq; exact Hc).
  assert (He : Ascii.eqb c "=" = false) by (apply Ascii.eqb_neq; tauto).
  assert (Hb : break_at_eq t = None) by (apply break_at_eq_none; tauto).
  assert (Hf : formal (String c t) = None).
  { unfold formal.
    destruct (String.eqb_spec (String c t) "config") as [e|_];
      [exfalso; apply Hn; rewrite e; simpl; tauto|].
    destruct (String.eqb_spec (String c t) "version") as [e|_];
      [exfalso; apply Hn; rewrite e; simpl; tauto|reflexivity]. }
  assert (Hh : String.eqb (String c t) "help" || String.eqb (String c t) "h" = false).
  { destruct (String.eqb_spec (String c t) "help") as [e|_];
      [exfalso; apply Hn; rewrite e; simpl; tauto|].
    destruct (String.eqb_spec (String c t) "h") as [e|_];
      [exfalso; apply Hn; rewrite e; simpl; tauto|reflexivity]. }
  assert (Hp : forall u fs, flag_parse u fs ((dashes ++ String c t) :: rest)
                            = failf u fs ("flag provided but not defined: -" ++ String c t)).
  { intros u fs.
    destruct Hd as [<-|[<-|[]]]; simpl; rewrite ?Hc'; simpl; rewrite He; simpl;
      rewrite Hb, Hf; cbv beta iota; rewrite Hh; reflexivity. }
  enter_parse Hm. rewrite Hj. cbv beta iota zeta. rewrite Hp. reflexivity.
Qed.

(** X13: an argument starting with [---], [-=] or [--=] is the error
    [bad flag syntax: <argument>], returned with the message and the usage
    text and the heap as it is. *)
Theorem Parse_bad_flag_syntax (envVarPrefix : string) lookupEnv description info
    conf h confRef (lead t : string) (rest : list string) :
  envVarPrefixRegex_MatchString envVarPrefix = true ->
  json_MarshalIndent conf h "  " "  " = inl confRef ->
  In lead ["---"; "-="; "--="] ->
  ParseC lookupEnv ((lead ++ t) :: rest) envVarPrefix description info conf h
  = (("bad flag syntax: " ++ lead ++ t) ++ nl
       ++ usage (normalize_prefix envVarPrefix) confRef
            (getEnv lookupEnv (normalize_prefix envVarPrefix) "CONFIG" "{}"),
     Some (Errorf ("bad flag syntax: " ++ lead ++ t)), h).
Proof.
  intros Hm Hj Hl. enter_parse Hm. rewrite Hj.
  destruct Hl as [<-|[<-|[<-|[]]]]; reflexivity.
Qed.

(** X14: with no argument, the decoder receives the text of
    [<PREFIX>_CONFIG] when that variable is set, even when it is empty, and
    [{}] when it is not set (for a non-nil target). *)
Theorem Parse_no_arguments (envVarPrefix : string) lookupEnv description info
    conf h confRef :
  envVarPrefixRegex_MatchString envVarPrefix = true ->
  json_MarshalIndent conf h "  " "  " = inl confRef ->
  conf <> GNil ->
  (lookupEnv (envVarPrefix ++ "_CONFIG") = None ->
     ParseC lookupEnv [] envVarPrefix description info conf h
     = match json_Unmarshal "{}" conf h with
       | (h', Some err) => ("", Some err, h')
       | (h', None) => ("", None, h')
       end)
  /\ (lookupEnv (envVarPrefix ++ "_CONFIG") = Some "" ->
     ParseC lookupEnv [] envVarPrefix description info conf h
     = match json_Unmarshal "" conf h with
       | (h', Some err) => ("", Some err, h')
       | (h', None) => ("", None, h')
       end).
Proof.
  intros Hm Hj Hn.
  assert (Hk : getEnvKey (normalize_prefix envVarPrefix) "CONFIG"
               = envVarPrefix ++ "_CONFIG").
  { unfold getEnvKey. rewrite (normalize_prefix_valid _ Hm). apply str_app_assoc. }
  split; intro He.
  all: enter_parse Hm; rewrite Hj; cbv beta iota zeta; simpl flag_parse;
    unfold initial_flagset, getEnv; cbn [configJSON version output];
    rewrite Hk, He; cbv iota.
  all: destruct conf; [contradiction| |..].
  all: match goal with
       | |- context [json_Unmarshal ?d] =>
           let e := eval vm_compute in d in change d with e
       end;
       destruct (json_Unmarshal _ _ h) as [h' [e|]]; reflexivity.
Qed.

(** X15: as long as the encoder and the decoder never return
    [flag.ErrHelp], [Parse] never returns [flag.ErrHelp] as its error. *)
Theorem Parse_never_ErrHelp lookupEnv args envVarPrefix description info conf h :
  (forall v hp p i, json_MarshalIndent v hp p i <> inr ErrHelp) ->
  (forall d v hp hp', json_Unmarshal d v hp <> (hp', Some ErrHelp)) ->
  snd (fst (Parse json_MarshalIndent json_Unmarshal PrintDefaults lookupEnv args envVarPrefix description info conf h)) <> Some ErrHelp.
Proof.
  intros Hj Hu. unfold Parse.
  destruct (negb (envVarPrefixRegex_MatchString envVarPrefix)); [discriminate|].
  destruct (json_MarshalIndent conf h "  " "  ") as [confRef|e] eqn:E.
  2: { simpl. intro Heq. injection Heq as ->. exact (Hj _ _ _ _ E). }
  cbv zeta.
  destruct (flag_parse _ _ args) as [fs [[|m]|]].
  1, 2: discriminate.
  destruct (version fs); [discriminate|].
  destruct conf; try discriminate.
  all: destruct (json_Unmarshal _ _ h) as [h' [e|]] eqn:U; [|discriminate].
  all: simpl; intro Heq; injection Heq as ->; exact (Hu _ _ _ _ U).
Qed.

(** X1: a [--config] value without any [$] byte reaches the decoder as it
    is, trimmed of white space, whatever the environment holds; the result
    is the empty string with the decoder's error and heap. *)
Theorem Parse_config_literal (envVarPrefix : string) lookupEnv description info
    conf h confRef (v : string) :
  envVarPrefixRegex_MatchString envVarPrefix = true ->
  json_MarshalIndent conf h "  " "  " = inl confRef ->
  conf <> GNil ->
  ~ In "$"%char (list_ascii_of_string v) ->
  Parse json_MarshalIndent json_Unmarshal PrintDefaults lookupEnv ["--config"; v]
    envVarPrefix description info conf h
  = match json_Unmarshal (TrimSpace v) conf h with
    | (h', Some err) => ("", Some err, h')
    | (h', None) => ("", None, h')
    end.
Proof.
  intros Hm Hj Hn Hd.
  assert (Hs : substitute lookupEnv (normalize_prefix envVarPrefix) v = v).
  { unfold substitute.
    pose proof (ReplaceAllStringFunc_no_dollar
                  (fun group => getEnv lookupEnv (normalize_prefix envVarPrefix)
                                  (sanitizePlaceholderToken group) "") v "" Hd) as E.
    rewrite !str_app_nil_r in E. exact E. }
  enter_parse Hm. rewrite Hj. cbv beta iota zeta. simpl flag_parse.
  cbn [configJSON version output set_configJSON initial_flagset]. cbv iota.
  rewrite Hs.
  destruct conf; [contradiction| ..];
    destruct (json_Unmarshal _ _ h) as [h' [e|]]; reflexivity.
Qed.

End ParseFlagTheorems.

(** X2: [sanitizePlaceholderToken] undoes the wrapping of a name in [${]
    and [}], for every text, whatever it holds; only one layer is
    removed. *)
Theorem sanitizePlaceholderToken_wrap (name : string) :
  sanitizePlaceholderToken ("${" ++ name ++ "}") = name.
Proof. apply sanitize_token. Qed.

(** X3: a brace-delimited text [${n}] whose inside is not a valid
    placeholder name (for instance [${A}], [${A_}] or [${a}]) and holds
    neither [$] nor [}] is kept verbatim by the substitution, which goes on
    after it. *)
Theorem substitute_keeps_invalid_placeholder lookupEnv prefix (n rest : string) :
  name_ok n = false ->
  ~ In "$"%char (list_ascii_of_string n) -> ~ In "}"%char (list_ascii_of_string n) ->
  substitute lookupEnv prefix ("${" ++ n ++ "}" ++ rest)
  = "${" ++ n ++ "}" ++ substitute lookupEnv prefix rest.
Proof.
  intros Hn Hd Hb. unfold substitute.
  pose proof (placeholder_at_invalid n rest Hn Hd Hb) as E.
  cbn [append] in *.
  rewrite ReplaceAllStringFunc_step, E. cbn [append].
  rewrite ReplaceAllStringFunc_step, placeholder_at_not_dollar by discriminate.
  rewrite ReplaceAllStringFunc_no_dollar by exact Hd.
  rewrite ReplaceAllStringFunc_step, placeholder_at_not_dollar by discriminate.
  reflexivity.
Qed.

(** * Witnesses of the further properties *)

Lemma Parse_config_literal_witness :
  demo_Parse env_cfg ["--config"; " {}" ++ nl] "TEST" "" None (GMap []) empty_heap
  = match demo_Unmarshal "{}" (GMap []) empty_heap with
    | (h', Some err) => ("", Some err, h')
    | (h', None) => ("", None, h')
    end.
Proof.
  refine (Parse_config_literal demo_MarshalIndent demo_Unmarshal demo_PrintDefaults
            "TEST" env_cfg "" None (GMap []) empty_heap "{}" (" {}" ++ nl) _ _ _ _).
  - reflexivity.
  - reflexivity.
  - discriminate.
  - simpl. intro H. repeat (destruct H as [H|H]; [discriminate H|]). exact H.
Defined.

Lemma substitute_keeps_invalid_placeholder_witness :
  substitute env_test "TEST_" ("${" ++ "A" ++ "}" ++ "${NAME}")
  = "${" ++ "A" ++ "}" ++ substitute env_test "TEST_" "${NAME}".
Proof.
  apply substitute_keeps_invalid_placeholder;
    [reflexivity | simpl; intros [H|H]; [discriminate H|exact H] ..].
Defined.

Lemma Parse_help_flags_witness :
  demo_Parse env_test ["--help"; "-x"] "TEST" "" None (GPtr 0) empty_heap
  = ("Usage:" ++ nl ++ "  -config" ++ nl ++ "  -version" ++ nl, None, empty_heap).
Proof.
  refine (Parse_help_flags demo_MarshalIndent demo_Unmarshal demo_PrintDefaults
            "TEST" env_test "" None (GPtr 0) empty_heap "{}" "--help" ["-x"] _ _ _);
    [reflexivity | reflexivity | simpl; tauto].
Defined.


Lemma Parse_version_false_witness :
  demo_Parse env_cfg ["--version=false"] "TEST" "" None (GPtr 0) empty_heap
  = demo_Parse env_cfg [] "TEST" "" None (GPtr 0) empty_heap.
Proof.
  refine (Parse_version_false demo_MarshalIndent demo_Unmarshal demo_PrintDefaults
            env_cfg "false" [] "TEST" "" None (GPtr 0) empty_heap _).
  reflexivity.
Defined.


Lemma Parse_version_over_config_witness :
  demo_Parse env_test ["--config"; "not json"; "--version"] "TEST" "" None (GPtr 0)
    empty_heap
  = (release_text None, None, empty_heap).
Proof.
  refine (Parse_version_over_config demo_MarshalIndent demo_Unmarshal demo_PrintDefaults
            "TEST" env_test "" None (GPtr 0) empty_heap "{}" "not json" _ _);
    reflexivity.
Defined.

Lemma Parse_config_missing_value_witness :
  demo_Parse env_test ["--config"] "TEST" "" None (GPtr 0) empty_heap
  = ("flag needs an argument: -config" ++ nl
       ++ "Usage:" ++ nl ++ "  -config" ++ nl ++ "  -version" ++ nl,
     Some (Errorf "flag needs an argument: -config"), empty_heap).
Proof.
  refine (Parse_config_missing_value demo_MarshalIndent demo_Unmarshal demo_PrintDefaults
            "TEST" env_test "" None (GPtr 0) empty_heap "{}" "--config" _ _ _);
    [reflexivity | reflexivity | simpl; tauto].
Defined.

Lemma Parse_undefined_flag_witness :
  demo_Parse env_test ["--verbose"] "TEST" "" None (GPtr 0) empty_heap
  = (("flag provided but not defined: -" ++ "verbose") ++ nl
       ++ "Usage:" ++ nl ++ "  -config" ++ nl ++ "  -version" ++ nl,
     Some (Errorf ("flag provided but not defined: -" ++ "verbose")), empty_heap).
Proof.
  refine (Parse_undefined_flag demo_MarshalIndent demo_Unmarshal demo_PrintDefaults
            "TEST" env_test "" None (GPtr 0) empty_heap "{}" "v" "erbose" "--" [] _ _ _ _ _ _).
  - reflexivity.
  - reflexivity.
  - simpl. tauto.
  - discriminate.
  - simpl. intro H. repeat (destruct H as [H|H]; [discriminate H|]). exact H.
  - simpl. intro H. repeat (destruct H as [H|H]; [discriminate H|]). exact H.
Defined.

Lemma Parse_bad_flag_syntax_witness :
  demo_Parse env_test ["---x"] "TEST" "" None (GPtr 0) empty_heap
  = (("bad flag syntax: " ++ "---" ++ "x") ++ nl
       ++ "Usage:" ++ nl ++ "  -config" ++ nl ++ "  -version" ++ nl,
     Some (Errorf ("bad flag syntax: " ++ "---" ++ "x")), empty_heap).
Proof.
  refine (Parse_bad_flag_syntax demo_MarshalIndent demo_Unmarshal demo_PrintDefaults
            "TEST" env_test "" None (GPtr 0) empty_heap "{}" "---" "x" [] _ _ _);
    [reflexivity | reflexivity | simpl; tauto].
Defined.

Lemma Parse_no_arguments_witness :
  demo_Parse env_test [] "TEST" "" None (GPtr 0) empty_heap
  = match demo_Unmarshal "{}" (GPtr 0) empty_heap with
    | (h', Some err) => ("", Some err, h')
    | (h', None) => ("", None, h')
    end
  /\ demo_Parse (fun k => if String.eqb k "TEST_CONFIG" then Some "" else None) []
       "TEST" "" None (GMap []) empty_heap
     = match demo_Unmarshal "" (GMap []) empty_heap with
       | (h', Some err) => ("", Some err, h')
       | (h', None) => ("", None, h')
       end.
Proof.
  split.
  - refine (proj1 (Parse_no_arguments demo_MarshalIndent demo_Unmarshal demo_PrintDefaults
              "TEST" env_test "" None (GPtr 0) empty_heap "{}" _ _ _) _);
      [reflexivity | reflexivity | discriminate | reflexivity].
  - refine (proj2 (Parse_no_arguments demo_MarshalIndent demo_Unmarshal demo_PrintDefaults
              "TEST" (fun k => if String.eqb k "TEST_CONFIG" then Some "" else None)
              "" None (GMap []) empty_heap "{}" _ _ _) _);
      [reflexivity | reflexivity | discriminate | reflexivity].
Defined.

Lemma Parse_never_ErrHelp_witness :
  snd (fst (demo_Parse env_test ["-h"] "TEST" "" None (GPtr 0) empty_heap)) <> Some ErrHelp.
Proof.
  refine (Parse_never_ErrHelp demo_MarshalIndent demo_Unmarshal demo_PrintDefaults
            env_test ["-h"] "TEST" "" None (GPtr 0) empty_heap _ _).
  - intros v hp p i. destruct v; discriminate.
  - intros d v hp hp'. destruct v; simpl; congruence.
Defined.
